(** * The slack input of the micro bot: event classification, command
      dispatch, command registration, the name cache and the loop of [run],
      and the calls that configure, start, stop and connect the adapter.

    Shallow embedding of [bot/input/slack/slack.go].

    - Go strings are byte sequences: [string] (a list of 8-bit [ascii]).
    - [map[string]command.Command] and [map[string]string] are [gmap]s keyed
      by [string].
    - A Go [error] is represented by its message ([err.Error()], which is
      what [%v] prints); a nil error is [None].
    - The calls a function makes on its collaborators ([cmd.Exec],
      [rtm.SendMessage]) are recorded, in program order, in a list of
      [effect]s.
    - [for _, cmd := range s.cmds] visits every entry of the map once, in an
      order Go leaves unspecified: the loop is a function of the list of
      visited commands, and [range_order] says which lists are possible. *)

From Stdlib Require Import String Ascii.
From stdpp Require Import gmap strings list fin_maps.

Local Open Scope string_scope.

(** ** Package [strings] *)

(** [strings.HasPrefix(s, prefix)]. *)
Definition HasPrefix (s prefix : string) : bool := String.prefix prefix s.

(** [strings.Split(s, sep)] for a separator of one byte, the only way the
    program calls it ([sep = " "]): [s] is cut at every occurrence of the
    separator, so a string with [n] separators yields [n + 1] pieces, some
    of which may be empty. *)
Fixpoint Split (s : string) (sep : ascii) : list string :=
  match s with
  | EmptyString => [EmptyString]
  | String c r =>
      if Ascii.eqb c sep then EmptyString :: Split r sep
      else match Split r sep with
           | tok :: toks => String c tok :: toks
           | [] => [String c EmptyString]
           end
  end.

(** [strings.Join(toks, sep)], the inverse of [Split]; only used to state
    that [Split] loses nothing. *)
Fixpoint Join (toks : list string) (sep : ascii) : string :=
  match toks with
  | [] => EmptyString
  | [tok] => tok
  | tok :: rest => tok +:+ String sep (Join rest sep)
  end.

(** Number of occurrences of a byte in a string. *)
Fixpoint Count (s : string) (sep : ascii) : nat :=
  match s with
  | EmptyString => 0
  | String c r => (if Ascii.eqb c sep then 1 else 0) + Count r sep
  end.

(** The separator of every call in the program. *)
Definition space : ascii := " "%char.

(** ** The collaborators' types, restricted to the fields the program reads *)

(** [slack.MessageEvent]. *)
Record MessageEvent := {
  ev_Type : string;
  ev_Channel : string;
  ev_User : string;
  ev_Text : string
}.

(** [slack.AuthTestResponse]: [User] is the handle the program looks for at
    the start of a text, [UserID] the identifier it puts in the structured
    mention. *)
Record AuthTestResponse := {
  auth_User : string;
  auth_UserID : string
}.

(** [slack.User]. *)
Record User := {
  user_ID : string;
  user_Name : string
}.

(** [command.Command]: [Name() string] and
    [Exec(args ...string) ([]byte, error)]. *)
Record Command := {
  cmd_Name : string;
  cmd_Exec : list string → string * option string
}.

(** What a function does to the outside, in program order. *)
Inductive effect :=
  | ExecCall (cmd : Command) (args : list string)
  | SendMessage (text channel : string).

(** ** [slackInput.cmds] *)

(** [NewInput]: the registry starts empty. *)
Definition NewInput : gmap string Command := ∅.

(** [Process]: the new registry and the returned error. *)
Definition Process (cmd : Command) (cmds : gmap string Command)
  : gmap string Command * option string :=
  match cmds !! cmd_Name cmd with
  | Some _ =>
      (cmds, Some ("Command with name " +:+ cmd_Name cmd +:+ " already exists"))
  | None => (<[cmd_Name cmd := cmd]> cmds, None)
  end.

(** The registries the program can hold: [cmds] is private, created by
    [NewInput] and written by [Process] only. *)
Inductive registry : gmap string Command → Prop :=
  | registry_new : registry NewInput
  | registry_process cmd cmds : registry cmds → registry (Process cmd cmds).1.

(** Every handler is stored under its own name. *)
Definition keyed_by_name (cmds : gmap string Command) : Prop :=
  ∀ k cmd, cmds !! k = Some cmd → cmd_Name cmd = k.

(** The orders in which [range s.cmds] may visit the handlers. *)
Definition range_order (cmds : gmap string Command) (order : list Command) : Prop :=
  order ≡ₚ (map_to_list cmds).*2.

(** ** [exec] *)

(** [fmt.Sprintf("@%s: error executing command: %v", name, err)]. *)
Definition error_text (name err : string) : string :=
  "@" +:+ name +:+ ": error executing command: " +:+ err.

(** The text of a success reply: [fmt.Sprintf("@%s: %s", name, string(rsp))],
    replaced by [string(rsp)] when [len(name) == 0] or the channel starts
    with ["D"]. *)
Definition success_text (name channel rsp : string) : string :=
  if Nat.eqb (String.length name) 0 || HasPrefix channel "D" then rsp
  else "@" +:+ name +:+ ": " +:+ rsp.

(** The loop of [exec] over the handlers in the order they are visited;
    [a0] is [args[0]]. A failing handler ends the function ([return]); after
    a successful one the loop goes on. *)
Fixpoint exec_range (ev : MessageEvent) (args : list string) (name a0 : string)
    (order : list Command) : list effect :=
  match order with
  | [] => []
  | cmd :: rest =>
      if negb (String.eqb a0 (cmd_Name cmd)) then exec_range ev args name a0 rest
      else
        let '(rsp, err) := cmd_Exec cmd args in
        match err with
        | Some e =>
            [ExecCall cmd args; SendMessage (error_text name e) (ev_Channel ev)]
        | None =>
            ExecCall cmd args
              :: SendMessage (success_text name (ev_Channel ev) rsp) (ev_Channel ev)
              :: exec_range ev args name a0 rest
        end
  end.

(** [exec]: nothing without arguments, else the loop. *)
Definition exec (order : list Command) (ev : MessageEvent) (args : list string)
    (name : string) : list effect :=
  match args with
  | [] => []
  | a0 :: _ => exec_range ev args name a0 order
  end.

(** ** [process] *)

(** [fmt.Sprintf("<@%s>", auth.UserID)]. *)
Definition mention (auth : AuthTestResponse) : string :=
  "<@" +:+ auth_UserID auth +:+ ">".

(** Lines 66 to 98 of [process]: [None] when the function returns before the
    call of [exec], else the arguments it passes to [exec]. [x[1:]] is [tail x]
    here, as [Split] never returns an empty slice. *)
Definition process_args (ev : MessageEvent) (auth : AuthTestResponse)
  : option (list string) :=
  if negb (String.eqb (ev_Type ev) "message") then None
  else if Nat.eqb (String.length (ev_Text ev)) 0 then None
  else if String.eqb (ev_User ev) (auth_User auth) then None
  else if negb (HasPrefix (ev_Channel ev) "D"
                || HasPrefix (ev_Text ev) (auth_User auth)
                || HasPrefix (ev_Text ev) (mention auth)) then None
  else if HasPrefix (ev_Text ev) (auth_User auth)
       then Some (tail (Split (ev_Text ev) space))
  else if HasPrefix (ev_Text ev) (mention auth)
       then Some (tail (Split (ev_Text ev) space))
  else Some (Split (ev_Text ev) space).

(** [process]. *)
Definition process (order : list Command) (ev : MessageEvent)
    (auth : AuthTestResponse) (name : string) : list effect :=
  match process_args ev auth with
  | None => []
  | Some args => exec order ev args name
  end.

(** ** [run] *)

(** The closure [fn] of [run], as a function of what [rtm.Client.GetUsers()]
    returns: the users, or an error. *)
Definition fn (users : list User + string) : gmap string string :=
  match users with
  | inr _ => ∅
  | inl us => foldl (λ names user, <[user_ID user := user_Name user]> names) ∅ us
  end.

(** [names[id]]: the zero value for a missing key. *)
Definition name_of (names : gmap string string) (id : string) : string :=
  default "" (names !! id).

(** What [rtm.IncomingEvents] delivers. *)
Inductive incoming :=
  | IsMessageEvent (ev : MessageEvent)
  | IsInvalidAuthEvent
  | IsOtherEvent.

(** The case [select] takes in one turn of the loop, with what the turn
    reads from outside: the answer of [GetUsers] for a tick, the event and
    the order in which [exec] will visit the registry for an incoming
    event. *)
Inductive wakeup :=
  | Tick (users : list User + string)
  | ExitClosed
  | Incoming (e : incoming) (order : list Command).

(** One turn of the loop of [run]: [None] when [run] returns, else the
    mapping [names] the next turn starts from; and what the turn did. *)
Definition run_step (auth : AuthTestResponse) (names : gmap string string)
    (w : wakeup) : option (gmap string string) * list effect :=
  match w with
  | Tick users => (Some (fn users), [])
  | ExitClosed => (None, [])
  | Incoming (IsMessageEvent ev) order =>
      (Some names, process order ev auth (name_of names (ev_User ev)))
  | Incoming IsInvalidAuthEvent _ => (None, [])
  | Incoming IsOtherEvent _ => (Some names, [])
  end.

(** The loop of [run] along a finite schedule of wake-ups: the mapping it
    holds at the end (if it has not returned) and everything it did. *)
Fixpoint run_loop (auth : AuthTestResponse) (names : gmap string string)
    (ws : list wakeup) : option (gmap string string) * list effect :=
  match ws with
  | [] => (Some names, [])
  | w :: rest =>
      match run_step auth names w with
      | (None, effs) => (None, effs)
      | (Some names', effs) =>
          let '(final, effs') := run_loop auth names' rest in
          (final, (effs ++ effs')%list)
      end
  end.

(** [run]: the first [fn()], then the loop. *)
Definition run (auth : AuthTestResponse) (first : list User + string)
    (ws : list wakeup) : option (gmap string string) * list effect :=
  run_loop auth (fn first) ws.

(** ** The adapter: [Init], [Start], [Stop], [Connect]

    Channels live in a store: channel [c] is the [c]-th entry of a list that
    says, for every channel made so far, whether it has been closed.
    [make(chan bool)] appends an open entry; [close] of a nil or of a closed
    channel panics. A function that can panic returns an [option], [None]
    being the panic. The mutex, and the goroutines that [Start] and
    [Connect] launch, are outside the model: every function is taken as it
    runs from [Lock] to [Unlock]. *)

(** [*slack.Client], as made by [slack.New(token)] and [SetDebug(debug)]. *)
Record Client := {
  client_token : string;
  client_debug : bool
}.

(** [slackInput]; a nil [exit] or [api] is [None]. *)
Record slackInput := {
  p_debug : bool;
  p_token : string;
  p_running : bool;
  p_exit : option nat;
  p_api : option Client;
  p_cmds : gmap string Command
}.

(** The value [NewInput] returns: every field but [cmds] has its zero
    value. *)
Definition new_slackInput : slackInput :=
  {| p_debug := false; p_token := ""; p_running := false; p_exit := None;
     p_api := None; p_cmds := NewInput |}.

(** [Init], on the values [ctx.Bool("slack_debug")] and
    [ctx.String("slack_token")]. *)
Definition Init (ctx_debug : bool) (ctx_token : string) (p : slackInput)
  : slackInput * option string :=
  if Nat.eqb (String.length ctx_token) 0 then (p, Some "missing slack token")
  else ({| p_debug := ctx_debug; p_token := ctx_token;
           p_running := p_running p; p_exit := p_exit p; p_api := p_api p;
           p_cmds := p_cmds p |}, None).

(** What [Start] leaves behind: the adapter, the channels, the returned
    error, and the argument of the [run] it has launched, if any. *)
Record started := {
  st_input : slackInput;
  st_chans : list bool;
  st_err : option string;
  st_run : option AuthTestResponse
}.

(** [Start]; [answer] is what [api.AuthTest()] returns if it is called. *)
Definition Start (answer : AuthTestResponse + string) (chans : list bool)
    (p : slackInput) : started :=
  if Nat.eqb (String.length (p_token p)) 0 then
    {| st_input := p; st_chans := chans; st_err := Some "missing slack token";
       st_run := None |}
  else if p_running p then
    {| st_input := p; st_chans := chans; st_err := None; st_run := None |}
  else
    match answer with
    | inr err =>
        {| st_input := p; st_chans := chans; st_err := Some err; st_run := None |}
    | inl auth =>
        {| st_input :=
             {| p_debug := p_debug p; p_token := p_token p; p_running := true;
                p_exit := Some (length chans);
                p_api := Some {| client_token := p_token p;
                                 client_debug := p_debug p |};
                p_cmds := p_cmds p |};
           st_chans := (chans ++ [false])%list;
           st_err := None;
           st_run := Some auth |}
    end.

(** [close(c)]. *)
Definition close (c : option nat) (chans : list bool) : option (list bool) :=
  match c with
  | None => None
  | Some i =>
      match chans !! i with
      | Some false => Some (<[i := true]> chans)
      | _ => None
      end
  end.

(** [Stop]: the adapter and the channels; the error it returns is always
    nil. *)
Definition Stop (chans : list bool) (p : slackInput)
  : option (slackInput * list bool) :=
  if negb (p_running p) then Some (p, chans)
  else
    match close (p_exit p) chans with
    | None => None
    | Some chans' =>
        Some ({| p_debug := p_debug p; p_token := p_token p;
                 p_running := false; p_exit := p_exit p; p_api := p_api p;
                 p_cmds := p_cmds p |}, chans')
    end.

(** The fields of the [slackConn] that [Connect] returns which this file
    sets, but for [rtm]. *)
Record slackConn := {
  conn_auth : AuthTestResponse;
  conn_exit : nat
}.

(** [Connect]: the channels, and the connection or the error. It leaves the
    adapter as it is. A nil [p.api] cannot be asked for [AuthTest]. *)
Definition Connect (answer : AuthTestResponse + string) (chans : list bool)
    (p : slackInput) : option (list bool * (slackConn + string)) :=
  if negb (p_running p) then Some (chans, inr "not running")
  else
    match p_api p with
    | None => None
    | Some _ =>
        match answer with
        | inr err => Some (chans, inr err)
        | inl auth =>
            Some ((chans ++ [false])%list,
                  inl {| conn_auth := auth; conn_exit := length chans |})
        end
    end.

(** [Process] on the adapter. *)
Definition Process_input (cmd : Command) (p : slackInput)
  : slackInput * option string :=
  ({| p_debug := p_debug p; p_token := p_token p; p_running := p_running p;
      p_exit := p_exit p; p_api := p_api p;
      p_cmds := (Process cmd (p_cmds p)).1 |},
   (Process cmd (p_cmds p)).2).

(** A call of the host on the adapter, with what the call reads from
    outside. *)
Inductive call :=
  | CallInit (ctx_debug : bool) (ctx_token : string)
  | CallStart (answer : AuthTestResponse + string)
  | CallStop
  | CallConnect (answer : AuthTestResponse + string)
  | CallProcess (cmd : Command).

(** The adapter and the channels after one call; [None] if it panics. *)
Definition host_call (c : call) (w : slackInput * list bool)
  : option (slackInput * list bool) :=
  match c with
  | CallInit d t => Some ((Init d t w.1).1, w.2)
  | CallStart answer =>
      Some (st_input (Start answer w.2 w.1), st_chans (Start answer w.2 w.1))
  | CallStop => Stop w.2 w.1
  | CallConnect answer =>
      match Connect answer w.2 w.1 with
      | None => None
      | Some (chans, _) => Some (w.1, chans)
      end
  | CallProcess cmd => Some ((Process_input cmd w.1).1, w.2)
  end.

(** The adapter and the channels after a sequence of calls. *)
Fixpoint host_calls (cs : list call) (w : slackInput * list bool)
  : option (slackInput * list bool) :=
  match cs with
  | [] => Some w
  | c :: rest =>
      match host_call c w with
      | None => None
      | Some w' => host_calls rest w'
      end
  end.

(** What holds of a running adapter: it has a token, a client, and an open
    exit channel. *)
Definition running_ok (w : slackInput * list bool) : Prop :=
  p_running w.1 = true →
  p_token w.1 ≠ "" ∧ is_Some (p_api w.1) ∧
  ∃ c, p_exit w.1 = Some c ∧ w.2 !! c = Some false.

(** ** Values the examples below are run on *)

(** A handler [deploy] that answers ["ok"]. *)
Definition deploy_ok : Command :=
  {| cmd_Name := "deploy"; cmd_Exec := λ _, ("ok", None) |}.

(** A handler [deploy] that fails. *)
Definition deploy_failing : Command :=
  {| cmd_Name := "deploy"; cmd_Exec := λ _, ("", Some "no such stage") |}.

(** A handler whose [Name()] is the empty string. *)
Definition unnamed : Command :=
  {| cmd_Name := ""; cmd_Exec := λ _, ("hi", None) |}.

(** An adapter whose handle is ["@bot"]. *)
Definition at_bot : AuthTestResponse :=
  {| auth_User := "@bot"; auth_UserID := "UBOT" |}.

(** An adapter whose handle is ["bot"]. *)
Definition bot : AuthTestResponse :=
  {| auth_User := "bot"; auth_UserID := "UBOT" |}.

Definition message (channel user text : string) : MessageEvent :=
  {| ev_Type := "message"; ev_Channel := channel; ev_User := user;
     ev_Text := text |}.

(** A cache that knows the sender [U123] and the adapter itself. *)
Definition cached : gmap string string :=
  <["UBOT" := "bot"]> {["U123" := "alice"]}.

(** The registry after [Process(deploy_ok)]. *)
Definition with_deploy : gmap string Command := (Process deploy_ok NewInput).1.

(** The registry after [Process(deploy_failing)]. *)
Definition with_failing : gmap string Command :=
  (Process deploy_failing NewInput).1.

(** The registry after [Process(unnamed)]. *)
Definition with_unnamed : gmap string Command := (Process unnamed NewInput).1.

(** Two entries of a user list for [U123], and one for another user. *)
Definition alice : User := {| user_ID := "U123"; user_Name := "alice" |}.

Definition alicia : User := {| user_ID := "U123"; user_Name := "alicia" |}.

Definition bob : User := {| user_ID := "U456"; user_Name := "bob" |}.

(** A message that addresses the adapter [bot] and asks for [deploy]. *)
Definition ask_deploy : wakeup :=
  Incoming (IsMessageEvent (message "C999" "U123" "bot deploy")) [deploy_ok].

(** The adapter after [Init(true, "xoxb-1")], and then after a [Start]
    whose [AuthTest] succeeded. *)
Definition configured : slackInput := (Init true "xoxb-1" new_slackInput).1.

Definition running_once : started := Start (inl bot) [] configured.

(** The adapter [running_once] after [Stop]. *)
Definition stopped_once : slackInput :=
  {| p_debug := true; p_token := "xoxb-1"; p_running := false;
     p_exit := Some 0;
     p_api := Some {| client_token := "xoxb-1"; client_debug := true |};
     p_cmds := NewInput |}.

(** The configured adapter after [Process(deploy_ok)]. *)
Definition registered_once : slackInput := (Process_input deploy_ok configured).1.

(** * Properties *)

(** ** Package [strings] *)

Section Strings.

Lemma HasPrefix_spec (s p : string) :
  HasPrefix s p = true ↔ ∃ t, s = p +:+ t.
Proof.
  unfold HasPrefix. revert s. induction p as [|c p IH]; intros s; simpl.
  - split; [intros _; by exists s | by destruct s].
  - destruct s as [|d s]; simpl.
    + split; [done | by intros [t ?]].
    + destruct (ascii_dec c d) as [->|Hne].
      * rewrite IH. split; intros [t Ht]; exists t.
        -- by rewrite Ht.
        -- change (String d p +:+ t) with (String d (p +:+ t)) in Ht.
           congruence.
      * split; [done | intros [t Ht]].
        change (String c p +:+ t) with (String c (p +:+ t)) in Ht.
        congruence.
Qed.

Lemma append_assoc (a b c : string) : (a +:+ b) +:+ c = a +:+ b +:+ c.
Proof.
  induction a as [|x a IH]; [done |].
  change (String x ((a +:+ b) +:+ c) = String x (a +:+ b +:+ c)).
  by rewrite IH.
Qed.

Lemma HasPrefix_empty (s : string) : HasPrefix s "" = true.
Proof. apply HasPrefix_spec. by exists s. Qed.

Lemma Split_not_nil (s : string) (sep : ascii) : Split s sep ≠ [].
Proof.
  destruct s as [|c r]; simpl; [done |].
  destruct (Ascii.eqb c sep); [done |]. by destruct (Split r sep).
Qed.

(** A string with [n] separators is cut in [n + 1] pieces. *)
Lemma length_Split (s : string) (sep : ascii) :
  length (Split s sep) = S (Count s sep).
Proof.
  induction s as [|c r IH]; simpl; [done |].
  destruct (Ascii.eqb c sep); simpl; [by rewrite IH |].
  pose proof (Split_not_nil r sep). destruct (Split r sep); [done | exact IH].
Qed.

(** No piece holds a separator. *)
Lemma Split_pieces (s : string) (sep : ascii) :
  Forall (λ tok, Count tok sep = 0) (Split s sep).
Proof.
  induction s as [|c r IH]; simpl; [by repeat constructor |].
  destruct (Ascii.eqb c sep) eqn:Hc; [by constructor |].
  destruct (Split r sep) as [|tok toks]; simpl.
  - repeat constructor. simpl. by rewrite Hc.
  - inversion_clear IH. constructor; [simpl; by rewrite Hc | done].
Qed.

(** Nothing of the text is lost: the pieces, put together again with the
    separator between them, are the text. *)
Lemma Join_Split (s : string) (sep : ascii) : Join (Split s sep) sep = s.
Proof.
  induction s as [|c r IH]; simpl; [done |].
  pose proof (Split_not_nil r sep) as Hnil.
  destruct (Ascii.eqb c sep) eqn:Hc.
  - apply Ascii.eqb_eq in Hc as ->.
    destruct (Split r sep) eqn:E; [done |]. simpl in *. by rewrite IH.
  - destruct (Split r sep) as [|tok toks] eqn:E; [done |].
    destruct toks; simpl in *; by rewrite <- IH.
Qed.

End Strings.

(** ** The registry *)

Section Registry.

Implicit Types (cmds : gmap string Command) (cmd : Command).

Lemma Process_keyed cmd cmds :
  keyed_by_name cmds → keyed_by_name (Process cmd cmds).1.
Proof.
  intros Hk. unfold Process.
  destruct (cmds !! cmd_Name cmd) eqn:E; simpl; [done |].
  intros k c. rewrite lookup_insert. case_decide; [| by apply Hk].
  by intros [= <-].
Qed.

(** In every registry the program can hold, a handler is found under its
    own name. *)
Lemma registry_keyed cmds : registry cmds → keyed_by_name cmds.
Proof.
  induction 1 as [|cmd cmds _ IH].
  - intros k c. unfold NewInput. by rewrite lookup_empty.
  - by apply Process_keyed.
Qed.

Lemma range_order_elem cmds order cmd :
  range_order cmds order → cmd ∈ order ↔ ∃ k, cmds !! k = Some cmd.
Proof.
  intros Hp. rewrite Hp, list_elem_of_fmap. split.
  - intros [[k c] [-> Hin]]. exists k. by apply elem_of_map_to_list.
  - intros [k Hk]. exists (k, cmd). by rewrite elem_of_map_to_list.
Qed.

Lemma names_of_entries (l : list (string * Command)) :
  (∀ k c, (k, c) ∈ l → cmd_Name c = k) → cmd_Name <$> l.*2 = l.*1.
Proof.
  induction l as [|[k c] l IH]; intros H; simpl; [done |].
  rewrite (H k c) by left. f_equal. apply IH. intros. apply H. by right.
Qed.

(** A keyed registry is visited without meeting a name twice. *)
Lemma range_order_NoDup cmds order :
  keyed_by_name cmds → range_order cmds order → NoDup (cmd_Name <$> order).
Proof.
  intros Hk Hp. rewrite Hp, names_of_entries.
  - apply NoDup_fst_map_to_list.
  - intros k c Hin. apply Hk. by apply elem_of_map_to_list.
Qed.

(** The order of stdpp's [map_to_list] is one of the possible orders. *)
Lemma range_order_map_to_list cmds : range_order cmds (map_to_list cmds).*2.
Proof. by unfold range_order. Qed.

End Registry.

(** ** [exec] *)

Section Exec.

Implicit Types (cmds : gmap string Command) (cmd : Command).
Implicit Types (order : list Command) (ev : MessageEvent).
Implicit Types (args : list string) (name : string).

(** The loop does nothing when no visited handler has the name looked
    for. *)
Lemma exec_range_no_match ev args name a0 order :
  (∀ cmd, cmd ∈ order → cmd_Name cmd ≠ a0) →
  exec_range ev args name a0 order = [].
Proof.
  induction order as [|c order IH]; intros Hno; simpl; [done |].
  destruct (String.eqb a0 (cmd_Name c)) eqn:E; simpl.
  - apply String.eqb_eq in E. destruct (Hno c); [by left | done].
  - apply IH. intros cmd Hin. apply Hno. by right.
Qed.

(** When no name is met twice, the loop runs the one handler of the name
    looked for, and sends one message. *)
Lemma exec_range_one ev args name order cmd rsp err :
  NoDup (cmd_Name <$> order) →
  cmd ∈ order →
  cmd_Exec cmd args = (rsp, err) →
  exec_range ev args name (cmd_Name cmd) order =
    [ExecCall cmd args;
     SendMessage (match err with
                  | Some e => error_text name e
                  | None => success_text name (ev_Channel ev) rsp
                  end) (ev_Channel ev)].
Proof.
  intros Hnd Hin Hex.
  induction order as [|c order IH]; [by apply elem_of_nil in Hin |].
  rewrite fmap_cons in Hnd. apply NoDup_cons in Hnd as [Hc Hnd].
  assert (Hrest : cmd_Name cmd ∈ cmd_Name <$> order → cmd_Name c ≠ cmd_Name cmd)
    by (intros ? Heq; by rewrite Heq in Hc).
  apply elem_of_cons in Hin as [<-|Hin]; simpl.
  - rewrite String.eqb_refl, Hex. simpl.
    destruct err; [done |]. do 2 f_equal.
    apply exec_range_no_match. intros c' Hc' Heq. apply Hc.
    rewrite <- Heq. by apply list_elem_of_fmap_2.
  - destruct (String.eqb (cmd_Name cmd) (cmd_Name c)) eqn:E; simpl.
    + apply String.eqb_eq in E. destruct Hrest; [| done].
      by apply list_elem_of_fmap_2.
    + by apply IH.
Qed.

(** [exec] on a registry of the program, whatever the order of the visit:
    the handler registered under [args[0]] runs once, on all the arguments,
    and one message goes to the channel of the event. *)
Lemma exec_registered cmds order ev a0 rest name cmd rsp err :
  registry cmds →
  range_order cmds order →
  cmds !! a0 = Some cmd →
  cmd_Exec cmd (a0 :: rest) = (rsp, err) →
  exec order ev (a0 :: rest) name =
    [ExecCall cmd (a0 :: rest);
     SendMessage (match err with
                  | Some e => error_text name e
                  | None => success_text name (ev_Channel ev) rsp
                  end) (ev_Channel ev)].
Proof.
  intros Hreg Hord Hlook Hex. apply registry_keyed in Hreg.
  unfold exec. rewrite <- (Hreg _ _ Hlook).
  rewrite <- (Hreg _ _ Hlook) in Hex.
  apply exec_range_one; [by eapply range_order_NoDup | | done].
  apply (range_order_elem cmds); [done | by exists a0].
Qed.

(** [exec] does nothing when the registry holds no handler of the name
    looked for. *)
Lemma exec_no_handler cmds order ev a0 rest name :
  range_order cmds order →
  (∀ k cmd, cmds !! k = Some cmd → cmd_Name cmd ≠ a0) →
  exec order ev (a0 :: rest) name = [].
Proof.
  intros Hord Hno. apply exec_range_no_match.
  intros cmd Hin. apply (range_order_elem cmds) in Hin as [k Hk]; [| done].
  by apply (Hno k).
Qed.

Lemma exec_no_args order ev name : exec order ev [] name = [].
Proof. done. Qed.

End Exec.

(** ** [process] *)

Section ProcessArgs.

Implicit Types (ev : MessageEvent) (auth : AuthTestResponse).

(** What the guard ["don't process self"] of the code rejects: a sender
    equal to [auth.User]. *)
Lemma process_args_sender_is_auth_User ev auth :
  ev_User ev = auth_User auth → process_args ev auth = None.
Proof.
  intros Heq. unfold process_args.
  destruct (negb _); [done |]. destruct (Nat.eqb _ _); [done |].
  by rewrite Heq, String.eqb_refl.
Qed.

(** The arguments are all the pieces of the text, or all but the first. *)
Lemma process_args_cases ev auth args :
  process_args ev auth = Some args →
  ev_Type ev = "message" ∧ ev_Text ev ≠ "" ∧ ev_User ev ≠ auth_User auth ∧
  args = if HasPrefix (ev_Text ev) (auth_User auth)
            || HasPrefix (ev_Text ev) (mention auth)
         then tail (Split (ev_Text ev) space)
         else Split (ev_Text ev) space.
Proof.
  unfold process_args.
  destruct (String.eqb (ev_Type ev) "message") eqn:Ety; simpl; [| done].
  destruct (Nat.eqb (String.length (ev_Text ev)) 0) eqn:Elen; [done |].
  destruct (String.eqb (ev_User ev) (auth_User auth)) eqn:Eus; [done |].
  apply String.eqb_eq in Ety. apply String.eqb_neq in Eus.
  assert (ev_Text ev ≠ "") by (intros E; by rewrite E in Elen).
  destruct (negb _); [done |].
  destruct (HasPrefix _ (auth_User auth)); simpl;
    [| destruct (HasPrefix _ (mention auth))]; intros [= <-]; done.
Qed.

End ProcessArgs.

(** * The claims *)

(** ** The name cache of the run loop *)

(** C1 (claim as stated, refuted): a cache that maps [U123] to ["alice"]
    no longer does after a refresh whose [GetUsers] call failed; the mapping
    after the refresh differs from the mapping before it. *)
Lemma refresh_failure_loses_names :
  name_of cached "U123" = "alice" ∧
  run_step bot cached (Tick (inr "timeout")) ≠ (Some cached, []) ∧
  ∃ names', run_step bot cached (Tick (inr "timeout")) = (Some names', []) ∧
            name_of names' "U123" = "".
Proof.
  split; [done |]. split; [| by eexists].
  intros H. apply (f_equal (λ r, name_of (default ∅ r.1) "U123")) in H.
  vm_compute in H. discriminate H.
Qed.

(** C1 (as amended): when the periodic refresh fails, the run loop goes on
    with the empty mapping: after the refresh every identifier has the empty
    display name, whatever was cached before. The turn sends nothing and does
    not end the loop. *)
Theorem refresh_failure_empties_names (auth : AuthTestResponse)
    (names : gmap string string) (e : string) :
  ∃ names', run_step auth names (Tick (inr e)) = (Some names', []) ∧
            names' = ∅ ∧ ∀ id, name_of names' id = "".
Proof.
  exists ∅. split; [done |]. split; [done |].
  intros id. unfold name_of. by rewrite lookup_empty.
Qed.

(** What follows from it in the loop: once a refresh has failed, a sender
    who was cached is answered without the ["@<name>: "] prefix. *)
Example reply_after_failed_refresh :
  run_loop at_bot cached
    [Incoming (IsMessageEvent (message "C999" "U123" "@bot deploy")) [deploy_ok];
     Tick (inr "timeout");
     Incoming (IsMessageEvent (message "C999" "U123" "@bot deploy")) [deploy_ok]]
  = (Some ∅,
     [ExecCall deploy_ok ["deploy"]; SendMessage "@alice: ok" "C999";
      ExecCall deploy_ok ["deploy"]; SendMessage "ok" "C999"]).
Proof. reflexivity. Qed.

(** ** The example of the specification *)

(** C2 (claim as stated, refuted): the claim does not say what the
    adapter's handle is. When it is ["bot"], the message
    ["@bot deploy staging"] in channel ["C999"] begins with neither the handle
    nor the mention ["<@UBOT>"], and the channel is not a direct one:
    [process] returns before [exec], the registered handler [deploy] is not
    called and nothing is sent. *)
Lemma example_deploy_staging_handle_bot :
  registry with_deploy ∧
  range_order with_deploy [deploy_ok] ∧
  with_deploy !! "deploy" = Some deploy_ok ∧
  cmd_Exec deploy_ok ["deploy"; "staging"] = ("ok", None) ∧
  cached !! "U123" = Some "alice" ∧
  run_step bot cached
    (Incoming (IsMessageEvent (message "C999" "U123" "@bot deploy staging"))
       [deploy_ok])
  = (Some cached, []) ∧
  run_step bot cached
    (Incoming (IsMessageEvent (message "C999" "U123" "@bot deploy staging"))
       [deploy_ok])
  ≠ (Some cached,
     [ExecCall deploy_ok ["deploy"; "staging"]; SendMessage "@alice: ok" "C999"]).
Proof.
  split; [apply registry_process, registry_new |].
  split; [vm_compute; reflexivity |].
  repeat split. discriminate.
Qed.

(** C2 (as amended): take the message ["@bot deploy staging"] of [U123],
    cached as ["alice"], in channel ["C999"], with a handler registered under
    ["deploy"] that returns [("ok", nil)] on these arguments. When the text
    begins with the adapter's handle [auth.User] (as it does for the handle
    ["@bot"]), the run loop calls that handler on [["deploy"; "staging"]] and
    sends exactly ["@alice: ok"] to ["C999"], whatever else the registry
    holds and in whatever order it is visited. When the text does not begin
    with the handle (as for the handle ["bot"]), the event is not addressed
    to the adapter: no handler is called and nothing is sent. *)
Theorem example_deploy_staging (auth : AuthTestResponse)
    (cmds : gmap string Command) (order : list Command) (cmd : Command)
    (names : gmap string string) :
  registry cmds →
  range_order cmds order →
  cmds !! "deploy" = Some cmd →
  cmd_Exec cmd ["deploy"; "staging"] = ("ok", None) →
  names !! "U123" = Some "alice" →
  (HasPrefix "@bot deploy staging" (auth_User auth) = true →
   run_step auth names
     (Incoming (IsMessageEvent (message "C999" "U123" "@bot deploy staging")) order)
   = (Some names,
      [ExecCall cmd ["deploy"; "staging"]; SendMessage "@alice: ok" "C999"])) ∧
  (HasPrefix "@bot deploy staging" (auth_User auth) = false →
   run_step auth names
     (Incoming (IsMessageEvent (message "C999" "U123" "@bot deploy staging")) order)
   = (Some names, [])).
Proof.
  intros Hreg Hord Hlook Hex Hname.
  assert (HasPrefix "@bot deploy staging" (mention auth) = false) as Hm
    by reflexivity.
  assert (process_args (message "C999" "U123" "@bot deploy staging") auth
          = if HasPrefix "@bot deploy staging" (auth_User auth)
            then Some ["deploy"; "staging"] else None) as Hargs.
  { unfold process_args, message. cbn [ev_Type ev_Channel ev_User ev_Text].
    rewrite String.eqb_refl, Hm.
    change (HasPrefix "C999" "D") with false.
    change (Nat.eqb (String.length "@bot deploy staging") 0) with false.
    cbn [negb orb].
    destruct (HasPrefix "@bot deploy staging" (auth_User auth)) eqn:Hp;
      destruct (String.eqb "U123" (auth_User auth)) eqn:Eus; try done.
    apply String.eqb_eq in Eus. by rewrite <- Eus in Hp. }
  unfold run_step, name_of, process.
  cbn [message ev_User]. rewrite Hname, Hargs. cbn [default].
  split; intros ->; [| done].
  by rewrite (exec_registered cmds order _ _ _ _ cmd "ok" None).
Qed.

Lemma example_deploy_staging_witness :
  run_step at_bot cached
    (Incoming (IsMessageEvent (message "C999" "U123" "@bot deploy staging"))
       [deploy_ok])
  = (Some cached,
     [ExecCall deploy_ok ["deploy"; "staging"]; SendMessage "@alice: ok" "C999"]).
Proof.
  apply (example_deploy_staging at_bot with_deploy [deploy_ok] deploy_ok cached).
  - apply registry_process, registry_new.
  - vm_compute. reflexivity.
  - reflexivity.
  - reflexivity.
  - reflexivity.
  - reflexivity.
Defined.

(** ** Classification and arguments *)

(** C3 (claim as stated, refuted): in the direct channel ["D001"] the text
    ["bot deploy"], sent to the adapter of handle ["bot"], is accepted, and
    its leading token is dropped: the arguments are not the pieces of the
    full text. *)
Lemma direct_channel_handle_dropped :
  HasPrefix (ev_Channel (message "D001" "U123" "bot deploy")) "D" = true ∧
  Split "bot deploy" space = ["bot"; "deploy"] ∧
  process_args (message "D001" "U123" "bot deploy") bot = Some ["deploy"] ∧
  process_args (message "D001" "U123" "bot deploy") bot
    ≠ Some (Split (ev_Text (message "D001" "U123" "bot deploy")) space).
Proof. by repeat split. Qed.

(** C3 (as amended): for an accepted message event of a direct channel, the
    arguments are the pieces of the full text, cut at every space and none
    dropped, when the text begins with neither the adapter's handle nor its
    structured mention; when it begins with one of them, the leading piece
    is dropped, in a direct channel as in any other. *)
Theorem direct_channel_args (ev : MessageEvent) (auth : AuthTestResponse) :
  ev_Type ev = "message" →
  ev_Text ev ≠ "" →
  ev_User ev ≠ auth_User auth →
  HasPrefix (ev_Channel ev) "D" = true →
  (HasPrefix (ev_Text ev) (auth_User auth) = false →
   HasPrefix (ev_Text ev) (mention auth) = false →
   process_args ev auth = Some (Split (ev_Text ev) space) ∧
   Join (Split (ev_Text ev) space) space = ev_Text ev) ∧
  (HasPrefix (ev_Text ev) (auth_User auth) = true
   ∨ HasPrefix (ev_Text ev) (mention auth) = true →
   process_args ev auth = Some (tail (Split (ev_Text ev) space))).
Proof.
  intros Hty Htx Hus Hd. unfold process_args.
  assert (Nat.eqb (String.length (ev_Text ev)) 0 = false) as Hlen
    by (by destruct (ev_Text ev)).
  apply String.eqb_neq in Hus. rewrite Hty, Hd, Hlen, Hus. simpl. split.
  - intros -> ->. split; [done | apply Join_Split].
  - intros [-> | Hm]; [done |]. rewrite Hm.
    by destruct (HasPrefix (ev_Text ev) (auth_User auth)).
Qed.

Lemma direct_channel_args_witness :
  (HasPrefix "deploy staging" (auth_User bot) = false →
   HasPrefix "deploy staging" (mention bot) = false →
   process_args (message "D001" "U123" "deploy staging") bot
     = Some ["deploy"; "staging"] ∧
   Join ["deploy"; "staging"] space = "deploy staging") ∧
  (HasPrefix "deploy staging" (auth_User bot) = true
   ∨ HasPrefix "deploy staging" (mention bot) = true →
   process_args (message "D001" "U123" "deploy staging") bot
     = Some ["staging"]).
Proof.
  apply (direct_channel_args (message "D001" "U123" "deploy staging") bot).
  - reflexivity.
  - discriminate.
  - discriminate.
  - reflexivity.
Defined.

(** C4 (the code at the failing input): an event whose sender is the
    adapter's own user ID, ["UBOT"], is not rejected. The guard compares the
    sender with [auth.User], the handle ["bot"], so the event is classified,
    the handler runs and a reply is sent. *)
Theorem own_message_is_processed :
  ev_User (message "C999" "UBOT" "<@UBOT> deploy staging") = auth_UserID bot ∧
  process_args (message "C999" "UBOT" "<@UBOT> deploy staging") bot
    = Some ["deploy"; "staging"] ∧
  run_step bot cached
    (Incoming (IsMessageEvent (message "C999" "UBOT" "<@UBOT> deploy staging"))
       [deploy_ok])
  = (Some cached,
     [ExecCall deploy_ok ["deploy"; "staging"]; SendMessage "@bot: ok" "C999"]).
Proof. by repeat split. Qed.

(** ** Dispatch *)

Section Dispatch.

Context (cmds : gmap string Command) (order : list Command).
Context (ev : MessageEvent) (a0 : string) (rest : list string).
Context (name : string).

(** C5: when the handler registered under the first argument returns
    [rsp] and no error, one reply goes to the channel of the event:
    ["@<name>: <rsp>"] if the sender's name is not empty and the channel
    is not a direct one, and [rsp] itself if the name is empty or the
    channel begins with ["D"]. *)
Theorem success_reply_format (cmd : Command) (rsp : string) :
  registry cmds →
  range_order cmds order →
  cmds !! a0 = Some cmd →
  cmd_Exec cmd (a0 :: rest) = (rsp, None) →
  ∃ text,
    exec order ev (a0 :: rest) name
      = [ExecCall cmd (a0 :: rest); SendMessage text (ev_Channel ev)] ∧
    (name ≠ "" → HasPrefix (ev_Channel ev) "D" = false →
     text = "@" +:+ name +:+ ": " +:+ rsp) ∧
    (name = "" ∨ HasPrefix (ev_Channel ev) "D" = true → text = rsp).
Proof.
  intros Hreg Hord Hlook Hex. exists (success_text name (ev_Channel ev) rsp).
  split; [by rewrite (exec_registered cmds order ev a0 rest name cmd rsp None) |].
  unfold success_text. split.
  - intros Hn ->. by destruct name.
  - intros [-> | ->]; [done | by rewrite orb_true_r].
Qed.

(** C6: when the handler registered under the first argument returns the
    error [e], exactly one reply goes to the channel of the event,
    ["@<name>: error executing command: <e>"]; the literal
    ["error executing command:"] stands in it. *)
Theorem error_reply_format (cmd : Command) (rsp e : string) :
  registry cmds →
  range_order cmds order →
  cmds !! a0 = Some cmd →
  cmd_Exec cmd (a0 :: rest) = (rsp, Some e) →
  exec order ev (a0 :: rest) name
    = [ExecCall cmd (a0 :: rest);
       SendMessage ("@" +:+ name +:+ ": error executing command: " +:+ e)
         (ev_Channel ev)] ∧
  ∃ pre post,
    "@" +:+ name +:+ ": error executing command: " +:+ e
      = pre +:+ "error executing command:" +:+ post.
Proof.
  intros Hreg Hord Hlook Hex. split.
  - by rewrite (exec_registered cmds order ev a0 rest name cmd rsp (Some e)).
  - exists ("@" +:+ name +:+ ": "), (" " +:+ e).
    change (("@" +:+ name +:+ ": ") +:+ "error executing command:" +:+ " " +:+ e)
      with (String "@" ((name +:+ ": ")
                          +:+ "error executing command:" +:+ " " +:+ e)).
    by rewrite append_assoc.
Qed.

(** C10: the reply to a failing handler begins with ["@<name>: "] whatever
    the name and the channel: with an empty name it begins with ["@: "],
    and a direct channel changes nothing; in these two cases a success
    reply is the handler's output alone. *)
Theorem error_reply_always_prefixed (cmd : Command) (rsp e : string) :
  registry cmds →
  range_order cmds order →
  cmds !! a0 = Some cmd →
  cmd_Exec cmd (a0 :: rest) = (rsp, Some e) →
  ∃ text,
    exec order ev (a0 :: rest) name
      = [ExecCall cmd (a0 :: rest); SendMessage text (ev_Channel ev)] ∧
    HasPrefix text ("@" +:+ name +:+ ": ") = true ∧
    (name = "" → HasPrefix text "@: " = true) ∧
    (name = "" ∨ HasPrefix (ev_Channel ev) "D" = true →
     ∀ out, success_text name (ev_Channel ev) out = out).
Proof.
  intros Hreg Hord Hlook Hex. exists (error_text name e).
  split; [by rewrite (exec_registered cmds order ev a0 rest name cmd rsp (Some e)) |].
  assert (HasPrefix (error_text name e) ("@" +:+ name +:+ ": ") = true) as Hp.
  { apply HasPrefix_spec. exists ("error executing command: " +:+ e).
    unfold error_text.
    change (("@" +:+ name +:+ ": ") +:+ "error executing command: " +:+ e)
      with (String "@" ((name +:+ ": ") +:+ "error executing command: " +:+ e)).
    by rewrite append_assoc. }
  split; [done |]. split.
  - intros E. rewrite E in Hp |- *. exact Hp.
  - unfold success_text. intros [-> | ->] out; [done | by rewrite orb_true_r].
Qed.

(** C8: when no registered handler has the first argument as its name,
    [exec] calls no handler and sends nothing; it has no error to return. *)
Theorem unregistered_command_silent :
  range_order cmds order →
  (∀ k cmd, cmds !! k = Some cmd → cmd_Name cmd ≠ a0) →
  exec order ev (a0 :: rest) name = [].
Proof.
  intros Hord Hno. by apply (exec_no_handler cmds).
Qed.

End Dispatch.

Lemma success_reply_format_witness :
  ∃ text,
    exec [deploy_ok] (message "D001" "U123" "deploy staging")
      ["deploy"; "staging"] "alice"
      = [ExecCall deploy_ok ["deploy"; "staging"]; SendMessage text "D001"] ∧
    ("alice" ≠ "" → HasPrefix "D001" "D" = false → text = "@alice: ok") ∧
    ("alice" = "" ∨ HasPrefix "D001" "D" = true → text = "ok").
Proof.
  apply (success_reply_format with_deploy [deploy_ok]
           (message "D001" "U123" "deploy staging") "deploy" ["staging"]
           "alice" deploy_ok "ok").
  - apply registry_process, registry_new.
  - vm_compute. reflexivity.
  - reflexivity.
  - reflexivity.
Defined.

Lemma error_reply_format_witness :
  exec [deploy_failing] (message "C999" "U123" "bot deploy staging")
    ["deploy"; "staging"] "alice"
    = [ExecCall deploy_failing ["deploy"; "staging"];
       SendMessage "@alice: error executing command: no such stage" "C999"] ∧
  ∃ pre post,
    "@alice: error executing command: no such stage"
      = pre +:+ "error executing command:" +:+ post.
Proof.
  apply (error_reply_format with_failing [deploy_failing]
           (message "C999" "U123" "bot deploy staging") "deploy" ["staging"]
           "alice" deploy_failing "" "no such stage").
  - apply registry_process, registry_new.
  - vm_compute. reflexivity.
  - reflexivity.
  - reflexivity.
Defined.

Lemma error_reply_always_prefixed_witness :
  ∃ text,
    exec [deploy_failing] (message "D001" "U404" "deploy staging")
      ["deploy"; "staging"] ""
      = [ExecCall deploy_failing ["deploy"; "staging"]; SendMessage text "D001"] ∧
    HasPrefix text "@: " = true ∧
    ("" = "" → HasPrefix text "@: " = true) ∧
    ("" = "" ∨ HasPrefix "D001" "D" = true →
     ∀ out, success_text "" "D001" out = out).
Proof.
  apply (error_reply_always_prefixed with_failing [deploy_failing]
           (message "D001" "U404" "deploy staging") "deploy" ["staging"]
           "" deploy_failing "" "no such stage").
  - apply registry_process, registry_new.
  - vm_compute. reflexivity.
  - reflexivity.
  - reflexivity.
Defined.

Lemma unregistered_command_silent_witness :
  exec [deploy_ok] (message "C999" "U123" "bot restart now")
    ["restart"; "now"] "alice" = [].
Proof.
  apply (unregistered_command_silent with_deploy [deploy_ok]
           (message "C999" "U123" "bot restart now") "restart" ["now"] "alice").
  - vm_compute. reflexivity.
  - intros k cmd Hk Hname.
    pose proof (registry_keyed with_deploy
                  (registry_process deploy_ok NewInput registry_new) k cmd Hk)
      as Hkey.
    rewrite Hname in Hkey. rewrite <- Hkey in Hk. vm_compute in Hk.
    discriminate Hk.
Defined.

(** C9 (claim as stated, refuted): [Process] accepts a handler whose name is
    the empty string. With it registered, the accepted text ["bot "], whose
    only argument is the empty string, runs that handler and is answered. *)
Lemma empty_first_token_dispatched :
  process_args (message "C999" "U123" "bot ") bot = Some [""] ∧
  registry with_unnamed ∧
  range_order with_unnamed [unnamed] ∧
  process [unnamed] (message "C999" "U123" "bot ") bot "alice"
    = [ExecCall unnamed [""]; SendMessage "@alice: hi" "C999"].
Proof.
  split; [done |]. split; [apply registry_process, registry_new |].
  split; [vm_compute; reflexivity | done].
Qed.

(** C9 (as amended): for an accepted event whose first argument is the
    empty string, no handler is called and nothing is sent, for every
    registry that holds no handler under the empty name. *)
Theorem empty_first_token_silent (cmds : gmap string Command)
    (order : list Command) (ev : MessageEvent) (auth : AuthTestResponse)
    (rest : list string) (name : string) :
  process_args ev auth = Some ("" :: rest) →
  registry cmds →
  range_order cmds order →
  cmds !! "" = None →
  process order ev auth name = [].
Proof.
  intros Hargs Hreg Hord Hnone. unfold process. rewrite Hargs.
  apply (exec_no_handler cmds); [done |].
  intros k cmd Hk Hname. apply registry_keyed in Hreg.
  rewrite <- (Hreg k cmd Hk), Hname in Hk. congruence.
Qed.

Lemma empty_first_token_silent_witness :
  process [deploy_ok] (message "C999" "U123" "bot ") bot "alice" = [].
Proof.
  apply (empty_first_token_silent with_deploy [deploy_ok]
           (message "C999" "U123" "bot ") bot [] "alice").
  - reflexivity.
  - apply registry_process, registry_new.
  - vm_compute. reflexivity.
  - reflexivity.
Defined.

(** ** Registration *)

(** C7: when the registry already holds a handler under the name of the
    handler being registered, [Process] returns an error and the registry is
    the same as before, the first handler still being the one under that
    name; when the name is free, [Process] returns no error and the registry
    gains the new handler under its name, and nothing else changes. *)
Theorem Process_duplicate_or_fresh (cmds : gmap string Command) (cmd : Command) :
  (∀ first, cmds !! cmd_Name cmd = Some first →
     (Process cmd cmds).2
       = Some ("Command with name " +:+ cmd_Name cmd +:+ " already exists") ∧
     (Process cmd cmds).1 = cmds ∧
     (Process cmd cmds).1 !! cmd_Name cmd = Some first) ∧
  (cmds !! cmd_Name cmd = None →
     (Process cmd cmds).2 = None ∧
     (Process cmd cmds).1 !! cmd_Name cmd = Some cmd ∧
     (∀ k, k ≠ cmd_Name cmd → (Process cmd cmds).1 !! k = cmds !! k) ∧
     size (Process cmd cmds).1 = S (size cmds)).
Proof.
  unfold Process. split.
  - intros first Hfirst. by rewrite Hfirst.
  - intros Hfree. rewrite Hfree. simpl. split; [done |].
    split; [by rewrite lookup_insert_eq |]. split.
    + intros k Hk. by rewrite lookup_insert_ne.
    + by apply map_size_insert_None.
Qed.

Lemma Process_duplicate_or_fresh_witness :
  ((Process deploy_failing with_deploy).2
     = Some "Command with name deploy already exists" ∧
   (Process deploy_failing with_deploy).1 = with_deploy ∧
   (Process deploy_failing with_deploy).1 !! "deploy" = Some deploy_ok) ∧
  ((Process deploy_ok NewInput).2 = None ∧
   (Process deploy_ok NewInput).1 !! "deploy" = Some deploy_ok ∧
   (∀ k, k ≠ "deploy" → (Process deploy_ok NewInput).1 !! k = NewInput !! k) ∧
   size (Process deploy_ok NewInput).1 = S (size NewInput)).
Proof.
  split.
  - apply (Process_duplicate_or_fresh with_deploy deploy_failing). reflexivity.
  - apply (Process_duplicate_or_fresh NewInput deploy_ok). reflexivity.
Defined.

(** * Further properties of the code *)

(** ** Cutting a text in pieces *)

Section SplitMore.

Implicit Types (s a b : string) (sep : ascii).

Lemma Count_app a b sep : Count (a +:+ b) sep = Count a sep + Count b sep.
Proof.
  induction a as [|x a IH]; [done |].
  change (String x a +:+ b) with (String x (a +:+ b)). simpl. rewrite IH. lia.
Qed.

Lemma Split_no_sep s sep : Count s sep = 0 → Split s sep = [s].
Proof.
  induction s as [|x s IH]; simpl; [done |].
  destruct (Ascii.eqb x sep); [done |]. intros H. by rewrite IH.
Qed.

Lemma Split_app_sep a b sep :
  Count a sep = 0 → Split (a +:+ String sep b) sep = a :: Split b sep.
Proof.
  induction a as [|x a IH]; intros H.
  - change ("" +:+ String sep b) with (String sep b). simpl.
    by rewrite Ascii.eqb_refl.
  - change (String x a +:+ String sep b) with (String x (a +:+ String sep b)).
    simpl in *. destruct (Ascii.eqb x sep); [done |]. by rewrite IH.
Qed.

Lemma length_app_sep a b sep :
  Nat.eqb (String.length (a +:+ String sep b)) 0 = false.
Proof. by destruct a. Qed.

End SplitMore.

(** ** Which events [process] takes, and with which arguments *)

Section Classify.

Implicit Types (ev : MessageEvent) (auth : AuthTestResponse).

(** An accepted text that begins with the handle or with the mention loses
    its first piece. *)
Lemma process_args_addressed ev auth :
  ev_Type ev = "message" →
  ev_Text ev ≠ "" →
  ev_User ev ≠ auth_User auth →
  HasPrefix (ev_Text ev) (auth_User auth) = true
  ∨ HasPrefix (ev_Text ev) (mention auth) = true →
  process_args ev auth = Some (tail (Split (ev_Text ev) space)).
Proof.
  intros Hty Htx Hus Hp. unfold process_args.
  assert (Nat.eqb (String.length (ev_Text ev)) 0 = false) as Hlen
    by (by destruct (ev_Text ev)).
  apply String.eqb_neq in Hus. rewrite Hty, Hlen, Hus. simpl.
  destruct Hp as [Hp | Hp]; rewrite Hp; rewrite ?orb_true_r; simpl; [done |].
  by destruct (HasPrefix (ev_Text ev) (auth_User auth)).
Qed.

(** X1: [process] returns before the call of [exec] in exactly four cases:
    the event is not of type ["message"]; its text is empty; its sender is
    [auth.User]; or the channel does not begin with ["D"] and the text begins
    with neither the handle nor the mention. *)
Theorem process_args_None_iff ev auth :
  process_args ev auth = None ↔
    ev_Type ev ≠ "message" ∨ ev_Text ev = "" ∨ ev_User ev = auth_User auth ∨
    (HasPrefix (ev_Channel ev) "D" = false ∧
     HasPrefix (ev_Text ev) (auth_User auth) = false ∧
     HasPrefix (ev_Text ev) (mention auth) = false).
Proof.
  unfold process_args.
  destruct (String.eqb (ev_Type ev) "message") eqn:Ety; simpl.
  2: { apply String.eqb_neq in Ety. split; [by left | done]. }
  apply String.eqb_eq in Ety.
  destruct (Nat.eqb (String.length (ev_Text ev)) 0) eqn:Elen.
  { split; [| done]. intros _. right; left. by destruct (ev_Text ev). }
  assert (ev_Text ev ≠ "") as Htx by (intros E; by rewrite E in Elen).
  destruct (String.eqb (ev_User ev) (auth_User auth)) eqn:Eus.
  { apply String.eqb_eq in Eus. split; [by right; right; left | done]. }
  apply String.eqb_neq in Eus.
  destruct (HasPrefix (ev_Channel ev) "D") eqn:Ed;
    destruct (HasPrefix (ev_Text ev) (auth_User auth)) eqn:Eh;
    destruct (HasPrefix (ev_Text ev) (mention auth)) eqn:Em; simpl;
    (split; [first [done | by intros _; repeat right]
            | by intros [? | [? | [? | (? & ? & ?)]]]]).
Qed.

(** X2: in an accepted text whose first piece begins with the handle (or
    with the mention), that whole piece is dropped, whatever follows the
    handle in it, and the arguments are the pieces of the rest of the
    text. *)
Theorem addressed_piece_dropped ev auth (h w rest : string) :
  ev_Type ev = "message" →
  ev_User ev ≠ auth_User auth →
  h = auth_User auth ∨ h = mention auth →
  Count (h +:+ w) space = 0 →
  ev_Text ev = (h +:+ w) +:+ String space rest →
  process_args ev auth = Some (Split rest space).
Proof.
  intros Hty Hus Hh Hcount Htx.
  assert (HasPrefix (ev_Text ev) h = true) as Hp.
  { apply HasPrefix_spec. exists (w +:+ String space rest).
    by rewrite Htx, append_assoc. }
  rewrite process_args_addressed; [| done | | done |].
  - by rewrite Htx, Split_app_sep.
  - rewrite Htx. by destruct (h +:+ w).
  - destruct Hh as [-> | ->]; [by left | by right].
Qed.

(** X3: an accepted text that begins with the handle or with the mention
    and holds no space leaves no argument, and [process] then does nothing,
    whatever handlers are registered. *)
Theorem lone_mention_ignored ev auth (order : list Command) (name : string) :
  ev_Type ev = "message" →
  ev_Text ev ≠ "" →
  ev_User ev ≠ auth_User auth →
  HasPrefix (ev_Text ev) (auth_User auth) = true
  ∨ HasPrefix (ev_Text ev) (mention auth) = true →
  Count (ev_Text ev) space = 0 →
  process_args ev auth = Some [] ∧ process order ev auth name = [].
Proof.
  intros Hty Htx Hus Hp Hcount.
  assert (process_args ev auth = Some []) as Hargs
    by (by rewrite process_args_addressed, Split_no_sep).
  split; [done |]. unfold process. by rewrite Hargs.
Qed.

End Classify.

Lemma process_args_None_iff_witness :
  process_args (message "C999" "U123" "deploy staging") bot = None.
Proof.
  apply (process_args_None_iff (message "C999" "U123" "deploy staging") bot).
  right; right; right. repeat split.
Defined.

Lemma addressed_piece_dropped_witness :
  process_args (message "C999" "U123" "bot: deploy staging") bot
    = Some ["deploy"; "staging"].
Proof.
  apply (addressed_piece_dropped (message "C999" "U123" "bot: deploy staging")
           bot "bot" ":" "deploy staging").
  - reflexivity.
  - discriminate.
  - by left.
  - reflexivity.
  - reflexivity.
Defined.

Lemma lone_mention_ignored_witness :
  process_args (message "C999" "U123" "<@UBOT>") bot = Some [] ∧
  process [deploy_ok; unnamed] (message "C999" "U123" "<@UBOT>") bot "alice" = [].
Proof.
  apply (lone_mention_ignored (message "C999" "U123" "<@UBOT>") bot).
  - reflexivity.
  - discriminate.
  - discriminate.
  - by right.
  - reflexivity.
Defined.

(** ** What [exec] and [process] do and never do *)

Section Effects.

Implicit Types (cmds : gmap string Command) (cmd : Command).
Implicit Types (order : list Command) (ev : MessageEvent).
Implicit Types (args : list string) (name : string).

Lemma exec_range_effects ev args name a0 order eff :
  eff ∈ exec_range ev args name a0 order →
  match eff with
  | SendMessage _ channel => channel = ev_Channel ev
  | ExecCall cmd args' => cmd ∈ order ∧ args' = args ∧ cmd_Name cmd = a0
  end.
Proof.
  induction order as [|c order IH]; simpl; [by intros ?%elem_of_nil |].
  destruct (String.eqb a0 (cmd_Name c)) eqn:E; simpl.
  2: { intros Hin. destruct eff; [| by apply IH].
       destruct (IH Hin) as (? & ? & ?). split; [by right | done]. }
  apply String.eqb_eq in E. destruct (cmd_Exec c args) as [rsp [e|]].
  - intros [-> | [-> | ?%elem_of_nil]%elem_of_cons]%elem_of_cons; [| done..].
    split; [by left | done].
  - intros [-> | [-> | Hin]%elem_of_cons]%elem_of_cons; [| done |].
    + split; [by left | done].
    + destruct eff; [| by apply IH].
      destruct (IH Hin) as (? & ? & ?). split; [by right | done].
Qed.

(** X4: whatever the handlers visited, every message [process] sends goes
    to the channel of the event, and every handler it calls is one of those
    visited, has the first argument as its name, and receives all the
    arguments parsed from the text, the name included. *)
Theorem process_effects_local order ev (auth : AuthTestResponse) name eff :
  eff ∈ process order ev auth name →
  match eff with
  | SendMessage _ channel => channel = ev_Channel ev
  | ExecCall cmd args =>
      cmd ∈ order ∧ process_args ev auth = Some args ∧
      head args = Some (cmd_Name cmd)
  end.
Proof.
  unfold process. destruct (process_args ev auth) as [args|];
    [| by intros ?%elem_of_nil].
  unfold exec. destruct args as [|a0 rest]; [by intros ?%elem_of_nil |].
  intros Hin%exec_range_effects. destruct eff; [| done].
  destruct Hin as (? & -> & ->). done.
Qed.

(** On a registry of the program [exec] does the same in every order of the
    visit. *)
Lemma exec_any_order cmds o1 o2 ev args name :
  registry cmds → range_order cmds o1 → range_order cmds o2 →
  exec o1 ev args name = exec o2 ev args name.
Proof.
  intros Hreg H1 H2. destruct args as [|a0 rest]; [done |].
  destruct (cmds !! a0) as [cmd|] eqn:Hlook.
  - destruct (cmd_Exec cmd (a0 :: rest)) as [rsp err] eqn:Hex.
    rewrite (exec_registered cmds o1 ev a0 rest name cmd rsp err) by done.
    by rewrite (exec_registered cmds o2 ev a0 rest name cmd rsp err).
  - assert (∀ k c, cmds !! k = Some c → cmd_Name c ≠ a0) as Hno.
    { intros k c Hk Hn. rewrite <- (registry_keyed cmds Hreg k c Hk), Hn in Hk.
      congruence. }
    rewrite (exec_no_handler cmds o1) by done.
    by rewrite (exec_no_handler cmds o2).
Qed.

(** X5: the order in which Go visits the registry cannot be seen: on a
    registry built by [Process], [process] calls the same handler and sends
    the same message for any two orders of the visit. *)
Theorem process_any_order cmds o1 o2 ev (auth : AuthTestResponse) name :
  registry cmds → range_order cmds o1 → range_order cmds o2 →
  process o1 ev auth name = process o2 ev auth name.
Proof.
  intros Hreg H1 H2. unfold process.
  destruct (process_args ev auth); [| done]. by apply (exec_any_order cmds).
Qed.

(** X6: on a registry built by [Process], one event runs at most one
    handler and is answered by at most one message: [process] does nothing,
    or it calls the handler registered under the first argument and sends
    one message to the channel of the event. *)
Theorem process_at_most_one cmds order ev (auth : AuthTestResponse) name :
  registry cmds → range_order cmds order →
  process order ev auth name = [] ∨
  ∃ cmd args text,
    cmds !! cmd_Name cmd = Some cmd ∧ head args = Some (cmd_Name cmd) ∧
    process order ev auth name
      = [ExecCall cmd args; SendMessage text (ev_Channel ev)].
Proof.
  intros Hreg Hord. unfold process.
  destruct (process_args ev auth) as [[|a0 rest]|]; [by left | | by left].
  destruct (cmds !! a0) as [cmd|] eqn:Hlook.
  - right. destruct (cmd_Exec cmd (a0 :: rest)) as [rsp err] eqn:Hex.
    pose proof (registry_keyed cmds Hreg a0 cmd Hlook) as Hname.
    exists cmd, (a0 :: rest). eexists. rewrite Hname.
    split; [done |]. split; [done |].
    by apply (exec_registered cmds order ev a0 rest name cmd rsp err).
  - left. apply (exec_no_handler cmds); [done |].
    intros k c Hk Hn. rewrite <- (registry_keyed cmds Hreg k c Hk), Hn in Hk.
    congruence.
Qed.

End Effects.

Lemma process_effects_local_witness :
  match SendMessage "@alice: ok" "C999" with
  | SendMessage _ channel => channel = "C999"
  | ExecCall cmd args =>
      cmd ∈ [unnamed; deploy_ok] ∧
      process_args (message "C999" "U123" "bot deploy staging") bot = Some args ∧
      head args = Some (cmd_Name cmd)
  end.
Proof.
  apply (process_effects_local [unnamed; deploy_ok]
           (message "C999" "U123" "bot deploy staging") bot "alice"
           (SendMessage "@alice: ok" "C999")).
  vm_compute. right. left.
Defined.

Lemma process_any_order_witness :
  process [unnamed; deploy_ok] (message "C999" "U123" "bot deploy") bot "alice"
  = process [deploy_ok; unnamed] (message "C999" "U123" "bot deploy") bot "alice".
Proof.
  apply (process_any_order (Process deploy_ok with_unnamed).1).
  - apply registry_process, registry_process, registry_new.
  - vm_compute. apply perm_swap.
  - vm_compute. reflexivity.
Defined.

Lemma process_at_most_one_witness :
  process [deploy_ok] (message "C999" "U123" "bot deploy") bot "alice" = [] ∨
  ∃ cmd args text,
    with_deploy !! cmd_Name cmd = Some cmd ∧ head args = Some (cmd_Name cmd) ∧
    process [deploy_ok] (message "C999" "U123" "bot deploy") bot "alice"
      = [ExecCall cmd args; SendMessage text "C999"].
Proof.
  apply (process_at_most_one with_deploy [deploy_ok]
           (message "C999" "U123" "bot deploy") bot "alice").
  - apply registry_process, registry_new.
  - vm_compute. reflexivity.
Defined.

(** ** Registration and dispatch together *)

Section Registered.

Implicit Types (cmds : gmap string Command) (cmd first : Command).
Implicit Types (order : list Command) (ev : MessageEvent).

(** X7: in every registry built by [Process], each handler is stored under
    its own name, so that no two of the handlers visited by [exec] have the
    same name. *)
Theorem registry_names_unique cmds order :
  registry cmds → range_order cmds order →
  (∀ k cmd, cmds !! k = Some cmd → cmd_Name cmd = k) ∧
  NoDup (cmd_Name <$> order).
Proof.
  intros Hreg Hord. pose proof (registry_keyed cmds Hreg) as Hk.
  split; [exact Hk | by apply (range_order_NoDup cmds)].
Qed.

(** X8: registering the same handler a second time fails and changes
    nothing, whatever the registry was before the first call. *)
Theorem Process_twice cmd cmds :
  Process cmd (Process cmd cmds).1
  = ((Process cmd cmds).1,
     Some ("Command with name " +:+ cmd_Name cmd +:+ " already exists")).
Proof.
  unfold Process at 1.
  assert (is_Some ((Process cmd cmds).1 !! cmd_Name cmd)) as [c ->]; [| done].
  unfold Process. destruct (cmds !! cmd_Name cmd) eqn:E; simpl.
  - by rewrite E.
  - by rewrite lookup_insert_eq.
Qed.

(** X9: a handler that [Process] has accepted is the one [exec] runs when
    the first argument is its name: it is called once, on all the arguments,
    and its answer or its error is sent to the channel of the event. *)
Theorem registered_then_dispatched cmds cmd order ev (rest : list string)
    (name rsp : string) (err : option string) :
  registry cmds →
  (Process cmd cmds).2 = None →
  range_order (Process cmd cmds).1 order →
  cmd_Exec cmd (cmd_Name cmd :: rest) = (rsp, err) →
  exec order ev (cmd_Name cmd :: rest) name
    = [ExecCall cmd (cmd_Name cmd :: rest);
       SendMessage (match err with
                    | Some e => error_text name e
                    | None => success_text name (ev_Channel ev) rsp
                    end) (ev_Channel ev)].
Proof.
  intros Hreg Hok Hord Hex.
  apply (exec_registered (Process cmd cmds).1); [by constructor | done | | done].
  unfold Process in *. destruct (cmds !! cmd_Name cmd); [done |].
  apply lookup_insert_eq.
Qed.

(** X10: a handler that [Process] has refused is never run: the handler
    registered first under the name goes on answering. *)
Theorem refused_never_dispatched cmds cmd first order ev (rest : list string)
    (name rsp : string) (err : option string) :
  registry cmds →
  cmds !! cmd_Name cmd = Some first →
  range_order (Process cmd cmds).1 order →
  cmd_Exec first (cmd_Name cmd :: rest) = (rsp, err) →
  exec order ev (cmd_Name cmd :: rest) name
    = [ExecCall first (cmd_Name cmd :: rest);
       SendMessage (match err with
                    | Some e => error_text name e
                    | None => success_text name (ev_Channel ev) rsp
                    end) (ev_Channel ev)].
Proof.
  intros Hreg Hfirst Hord Hex.
  apply (exec_registered (Process cmd cmds).1); [by constructor | done | | done].
  unfold Process. by rewrite Hfirst.
Qed.

End Registered.

Lemma registry_names_unique_witness :
  (∀ k cmd, (Process deploy_ok with_unnamed).1 !! k = Some cmd → cmd_Name cmd = k) ∧
  NoDup (cmd_Name <$> [unnamed; deploy_ok]).
Proof.
  apply (registry_names_unique (Process deploy_ok with_unnamed).1
           [unnamed; deploy_ok]).
  - apply registry_process, registry_process, registry_new.
  - vm_compute. apply perm_swap.
Defined.

Lemma registered_then_dispatched_witness :
  exec [deploy_ok; unnamed] (message "D001" "U123" "deploy now")
    ["deploy"; "now"] "alice"
  = [ExecCall deploy_ok ["deploy"; "now"]; SendMessage "ok" "D001"].
Proof.
  apply (registered_then_dispatched with_unnamed deploy_ok [deploy_ok; unnamed]
           (message "D001" "U123" "deploy now") ["now"] "alice" "ok" None).
  - apply registry_process, registry_new.
  - reflexivity.
  - vm_compute. reflexivity.
  - reflexivity.
Defined.

Lemma refused_never_dispatched_witness :
  exec [deploy_ok] (message "D001" "U123" "deploy now") ["deploy"; "now"] "alice"
  = [ExecCall deploy_ok ["deploy"; "now"]; SendMessage "ok" "D001"].
Proof.
  apply (refused_never_dispatched with_deploy deploy_failing deploy_ok [deploy_ok]
           (message "D001" "U123" "deploy now") ["now"] "alice" "ok" None).
  - apply registry_process, registry_new.
  - reflexivity.
  - vm_compute. reflexivity.
  - reflexivity.
Defined.

(** ** The name cache and the loop of [run] *)

Section Run.

Implicit Types (names : gmap string string) (us pre post : list User).
Implicit Types (auth : AuthTestResponse) (ws : list wakeup).

Lemma fold_names_other names us (id : string) :
  (∀ u, u ∈ us → user_ID u ≠ id) →
  foldl (λ names user, <[user_ID user := user_Name user]> names) names us !! id
  = names !! id.
Proof.
  revert names. induction us as [|u us IH]; intros names Hno; simpl; [done |].
  rewrite IH by (intros v Hv; apply Hno; by right).
  apply lookup_insert_ne, Hno. by left.
Qed.

Lemma fold_names_is_Some names us (id : string) :
  is_Some (foldl (λ names user, <[user_ID user := user_Name user]> names)
             names us !! id)
  ↔ is_Some (names !! id) ∨ ∃ u, u ∈ us ∧ user_ID u = id.
Proof.
  revert names. induction us as [|u us IH]; intros names; simpl.
  - split; [by left | intros [? | (u & ?%elem_of_nil & _)]; done].
  - rewrite IH, lookup_insert. case_decide as Hid; split.
    + intros _. right. exists u. split; [by left | done].
    + intros _. by left.
    + intros [? | (v & Hv & ?)]; [by left |]. right. exists v. split; [by right | done].
    + intros [? | (v & [-> | Hv]%elem_of_cons & ?)]; [by left | done |].
      right. by exists v.
Qed.

(** X11: after a refresh that succeeds, a user has the name of the last
    entry of the user list that carries their identifier. *)
Theorem fn_last_entry_wins pre (u : User) post :
  (∀ v, v ∈ post → user_ID v ≠ user_ID u) →
  name_of (fn (inl (pre ++ u :: post)%list)) (user_ID u) = user_Name u.
Proof.
  intros Hpost. unfold name_of, fn. rewrite foldl_app. simpl.
  rewrite fold_names_other by done. by rewrite lookup_insert_eq.
Qed.

(** X12: a refresh that succeeds rebuilds the mapping from the user list
    alone: afterwards an identifier has an entry exactly when it is in the
    list, so a name cached before for a user no longer listed is gone. *)
Theorem refresh_rebuilds_names auth names us :
  ∃ names',
    run_step auth names (Tick (inl us)) = (Some names', []) ∧
    (∀ id, is_Some (names' !! id) ↔ ∃ u, u ∈ us ∧ user_ID u = id) ∧
    (∀ id, (∀ u, u ∈ us → user_ID u ≠ id) → name_of names' id = "").
Proof.
  exists (fn (inl us)). split; [done |]. unfold fn, name_of. split.
  - intros id. rewrite fold_names_is_Some, lookup_empty. split.
    + by intros [[? [=]] | ?].
    + intros ?. by right.
  - intros id Hno. by rewrite fold_names_other, lookup_empty.
Qed.

Lemma run_loop_app auth names ws1 ws2 names1 effs1 :
  run_loop auth names ws1 = (Some names1, effs1) →
  run_loop auth names (ws1 ++ ws2)%list
  = ((run_loop auth names1 ws2).1, effs1 ++ (run_loop auth names1 ws2).2)%list.
Proof.
  revert names effs1. induction ws1 as [|w ws1 IH]; intros names effs1; simpl.
  - intros [= -> <-]. by destruct (run_loop auth names1 ws2).
  - destruct (run_step auth names w) as [[names'|] effs]; [| done].
    destruct (run_loop auth names' ws1) as [final effs'] eqn:E.
    intros [= -> <-]. rewrite (IH names' effs') by done.
    destruct (run_loop auth names1 ws2). simpl. by rewrite app_assoc.
Qed.

(** X13: once the exit channel is closed, or an invalid-auth event has come
    in, and the loop takes that case, [run] returns: the events that follow in
    the schedule are not processed and nothing more is sent. *)
Theorem run_loop_stops auth names ws1 names1 effs (w : wakeup) ws2 :
  run_loop auth names ws1 = (Some names1, effs) →
  w = ExitClosed ∨ (∃ order, w = Incoming IsInvalidAuthEvent order) →
  run_loop auth names (ws1 ++ w :: ws2)%list = (None, effs).
Proof.
  intros Hrun Hw. rewrite (run_loop_app auth names ws1 _ names1 effs Hrun).
  destruct Hw as [-> | [order ->]]; simpl; by rewrite app_nil_r.
Qed.

(** X14: the loop only ever answers: every message it sends goes to the
    channel of a message event of its schedule whose text is not empty and
    whose sender is not [auth.User]. *)
Theorem run_loop_only_answers auth names ws final effs (text channel : string) :
  run_loop auth names ws = (final, effs) →
  SendMessage text channel ∈ effs →
  ∃ ev order,
    Incoming (IsMessageEvent ev) order ∈ ws ∧ ev_Channel ev = channel ∧
    ev_Type ev = "message" ∧ ev_Text ev ≠ "" ∧ ev_User ev ≠ auth_User auth.
Proof.
  revert names final effs. induction ws as [|w ws IH]; intros names final effs; simpl.
  - intros [= <- <-]. by intros ?%elem_of_nil.
  - destruct (run_step auth names w) as [[names'|] effs0] eqn:Estep.
    + destruct (run_loop auth names' ws) as [final' effs'] eqn:E.
      intros [= <- <-]. intros [Hin | Hin]%elem_of_app.
      * destruct w as [users | | [ev | |] order]; simplify_eq/=;
          try by apply elem_of_nil in Hin.
        unfold process in Hin.
        destruct (process_args ev auth) as [args|] eqn:Hargs;
          [| by apply elem_of_nil in Hin].
        apply process_args_cases in Hargs as (? & ? & ? & _).
        exists ev, order. split; [by left |]. split; [| done].
        destruct args as [|a0 rest]; [by apply elem_of_nil in Hin |].
        by apply exec_range_effects in Hin.
      * destruct (IH names' final' effs' E Hin) as (ev & order & ? & ?).
        exists ev, order. split; [by right | done].
    + intros [= <- <-]. intros Hin.
      destruct w as [users | | [ev | |] order]; simplify_eq/=;
        by apply elem_of_nil in Hin.
Qed.

End Run.

Lemma fn_last_entry_wins_witness :
  name_of (fn (inl [alice; alicia; bob])) "U123" = "alicia".
Proof.
  apply (fn_last_entry_wins [alice] alicia [bob]).
  intros v Hv. apply list_elem_of_singleton in Hv as ->. discriminate.
Defined.

Lemma run_loop_stops_witness :
  run_loop bot cached [ask_deploy; ExitClosed; ask_deploy]
  = (None, [ExecCall deploy_ok ["deploy"]; SendMessage "@alice: ok" "C999"]).
Proof.
  apply (run_loop_stops bot cached [ask_deploy] cached
           [ExecCall deploy_ok ["deploy"]; SendMessage "@alice: ok" "C999"]
           ExitClosed [ask_deploy]).
  - reflexivity.
  - by left.
Defined.

Lemma run_loop_only_answers_witness :
  ∃ ev order,
    Incoming (IsMessageEvent ev) order ∈ [Tick (inl [bob]); ask_deploy] ∧
    ev_Channel ev = "C999" ∧
    ev_Type ev = "message" ∧ ev_Text ev ≠ "" ∧ ev_User ev ≠ auth_User bot.
Proof.
  apply (run_loop_only_answers bot cached [Tick (inl [bob]); ask_deploy]
           (Some (fn (inl [bob])))
           [ExecCall deploy_ok ["deploy"]; SendMessage "ok" "C999"] "ok" "C999").
  - reflexivity.
  - right. left.
Defined.

(** ** The adapter: [Init], [Start], [Stop], [Connect] *)

Section Lifecycle.

Implicit Types (p : slackInput) (chans : list bool).
Implicit Types (answer : AuthTestResponse + string) (auth : AuthTestResponse).

Lemma token_not_empty (t : string) :
  Nat.eqb (String.length t) 0 = false ↔ t ≠ "".
Proof. by destruct t. Qed.

Lemma Start_running_ok answer chans p :
  running_ok (p, chans) →
  running_ok (st_input (Start answer chans p), st_chans (Start answer chans p)).
Proof.
  intros Hok. unfold running_ok in *. simpl in *. unfold Start.
  destruct (Nat.eqb (String.length (p_token p)) 0) eqn:Etok; [done |].
  destruct (p_running p) eqn:Erun; simpl; [by rewrite Erun |].
  destruct answer as [auth | err]; simpl; [| by rewrite Erun].
  intros _. split; [by apply token_not_empty |]. split; [by eexists |].
  exists (length chans). split; [done |].
  by rewrite lookup_app_r, Nat.sub_diag.
Qed.

Lemma Stop_running_ok chans p :
  running_ok (p, chans) → ∃ w, Stop chans p = Some w ∧ running_ok w.
Proof.
  intros Hok. unfold running_ok in Hok. simpl in Hok.
  unfold Stop. destruct (p_running p) eqn:Erun; simpl.
  - destruct (Hok eq_refl) as (_ & _ & c & -> & Hc). simpl. rewrite Hc.
    eexists. split; [done |]. by intros [=].
  - eexists. split; [done |]. unfold running_ok. simpl. by rewrite Erun.
Qed.

Lemma Connect_running_ok answer chans p :
  running_ok (p, chans) →
  ∃ chans' r, Connect answer chans p = Some (chans', r) ∧ running_ok (p, chans').
Proof.
  intros Hok. unfold running_ok in Hok. simpl in Hok.
  unfold Connect. destruct (p_running p) eqn:Erun; simpl.
  2: { do 2 eexists. split; [done |]. unfold running_ok. simpl. by rewrite Erun. }
  destruct (Hok eq_refl) as (Htok & Hapi & c & Hexit & Hc).
  assert (running_ok (p, chans)) as Hsame by (intros _; simpl; eauto).
  destruct (p_api p) as [api|] eqn:Eapi; [| by destruct Hapi as [? [=]]].
  destruct answer as [auth | err]; do 2 eexists; (split; [done |]); [| done].
  intros _. simpl. split; [done |]. split; [by rewrite Eapi |].
  exists c. split; [done |]. by apply lookup_app_l_Some.
Qed.

Lemma host_call_running_ok (c : call) (w : slackInput * list bool) :
  running_ok w → ∃ w', host_call c w = Some w' ∧ running_ok w'.
Proof.
  destruct w as [p chans]. intros Hok. destruct c as [d t | answer | | answer | cmd]; simpl.
  - eexists. split; [done |]. unfold running_ok in *. simpl in *. unfold Init.
    destruct (Nat.eqb (String.length t) 0) eqn:Et; [done |].
    simpl. intros Hrun. destruct (Hok Hrun) as (_ & ? & ?).
    split; [by apply token_not_empty | done].
  - eexists. split; [done |]. by apply Start_running_ok.
  - by apply Stop_running_ok.
  - destruct (Connect_running_ok answer chans p Hok) as (chans' & r & -> & ?).
    by eexists.
  - eexists. split; [done |]. exact Hok.
Qed.

(** X15: whatever calls the host makes on a new adapter, in whatever order
    and with whatever answers of [AuthTest], none of them panics: [Stop]
    never closes a nil or an already closed channel and [Connect] never uses
    a nil client. After them, an adapter that is running has a token, a
    client and an open exit channel. *)
Theorem host_calls_never_panic (cs : list call) :
  ∃ w, host_calls cs (new_slackInput, []) = Some w ∧ running_ok w.
Proof.
  assert (∀ w0, running_ok w0 → ∃ w, host_calls cs w0 = Some w ∧ running_ok w)
    as Hgen.
  { induction cs as [|c cs IH]; intros w0 Hok; simpl; [by exists w0 |].
    destruct (host_call_running_ok c w0 Hok) as (w' & -> & Hok'). by apply IH. }
  apply Hgen. by intros [=].
Qed.

(** X16: a second [Stop] after a [Stop] changes nothing: it closes no
    channel and leaves the adapter stopped. *)
Theorem Stop_twice chans p p' chans' :
  Stop chans p = Some (p', chans') →
  p_running p' = false ∧ Stop chans' p' = Some (p', chans').
Proof.
  unfold Stop. destruct (p_running p) eqn:Erun; simpl.
  - destruct (close (p_exit p) chans); [| done]. by intros [= <- <-].
  - intros [= <- <-]. by rewrite Erun.
Qed.

(** X17: a [Start] on an adapter that a [Start] has just set running
    returns nil and does nothing: the adapter and the channels stay as they
    are, [AuthTest] is not consulted and no second [run] is launched. *)
Theorem Start_twice answer answer' chans p auth :
  st_run (Start answer chans p) = Some auth →
  Start answer' (st_chans (Start answer chans p)) (st_input (Start answer chans p))
  = {| st_input := st_input (Start answer chans p);
       st_chans := st_chans (Start answer chans p);
       st_err := None; st_run := None |}.
Proof.
  unfold Start at 1.
  destruct (Nat.eqb (String.length (p_token p)) 0) eqn:Etok; [done |].
  destruct (p_running p) eqn:Erun; [done |].
  destruct answer as [auth0 | err]; [| done]. intros _.
  unfold Start. rewrite Etok, Erun. simpl. by rewrite Etok.
Qed.

(** X18: [Start] launches [run] exactly when a token is configured, the
    adapter is not running and [AuthTest] succeeds, and then with the answer
    of [AuthTest]; in every other case it leaves the adapter and the channels
    as they were. *)
Theorem Start_launches_iff answer chans p :
  (∀ auth, st_run (Start answer chans p) = Some auth ↔
           p_token p ≠ "" ∧ p_running p = false ∧ answer = inl auth) ∧
  (st_run (Start answer chans p) = None →
   st_input (Start answer chans p) = p ∧ st_chans (Start answer chans p) = chans).
Proof.
  unfold Start.
  destruct (Nat.eqb (String.length (p_token p)) 0) eqn:Etok.
  { split; [| done]. intros auth. split; [done |]. intros (Hne & _).
    apply token_not_empty in Hne. congruence. }
  apply token_not_empty in Etok.
  destruct (p_running p) eqn:Erun.
  { split; [| done]. intros auth. split; [done | by intros (_ & ? & _)]. }
  destruct answer as [auth0 | err]; simpl.
  - split; [| done]. intros auth. split; [by intros [= ->] | by intros (_ & _ & [= ->])].
  - split; [| done]. intros auth. split; [done | by intros (_ & _ & ?)].
Qed.

(** X19: an [Init] that succeeds, followed by a [Start] on an adapter that
    is not running whose [AuthTest] succeeds, sets the adapter running with a
    client made from the token and the debug flag just given, and with a new,
    open exit channel. *)
Theorem Init_then_Start (d : bool) (t : string) p p' auth chans :
  Init d t p = (p', None) →
  p_running p = false →
  st_err (Start (inl auth) chans p') = None ∧
  st_run (Start (inl auth) chans p') = Some auth ∧
  p_running (st_input (Start (inl auth) chans p')) = true ∧
  p_api (st_input (Start (inl auth) chans p'))
    = Some {| client_token := t; client_debug := d |} ∧
  ∃ c, p_exit (st_input (Start (inl auth) chans p')) = Some c ∧
       chans !! c = None ∧
       st_chans (Start (inl auth) chans p') !! c = Some false.
Proof.
  unfold Init. destruct (Nat.eqb (String.length t) 0) eqn:Et; [done |].
  intros [= <-] Hrun. unfold Start. simpl. rewrite Et, Hrun. simpl.
  repeat split. exists (length chans). split; [done |].
  split; [by apply lookup_ge_None_2 |].
  by rewrite lookup_app_r, Nat.sub_diag.
Qed.

End Lifecycle.

Section Sessions.

Implicit Types (p : slackInput) (chans : list bool).
Implicit Types (answer : AuthTestResponse + string) (auth : AuthTestResponse).

(** X20: stopping a running adapter and starting it again gives it a new
    exit channel: the channel closed by [Stop] stays closed and is not the
    one the new [run] waits on, which is open. *)
Theorem restart_makes_new_channel chans p p1 chans1 auth :
  running_ok (p, chans) →
  p_running p = true →
  Stop chans p = Some (p1, chans1) →
  st_run (Start (inl auth) chans1 p1) = Some auth ∧
  ∃ c c',
    p_exit p = Some c ∧
    p_exit (st_input (Start (inl auth) chans1 p1)) = Some c' ∧
    c ≠ c' ∧
    st_chans (Start (inl auth) chans1 p1) !! c = Some true ∧
    st_chans (Start (inl auth) chans1 p1) !! c' = Some false.
Proof.
  intros Hok Hrun. destruct (Hok Hrun) as (Htok & _ & c & Hexit & Hc).
  simpl in *. unfold Stop. rewrite Hrun, Hexit. simpl. rewrite Hc.
  intros [= <- <-]. apply token_not_empty in Htok.
  pose proof (lookup_lt_Some _ _ _ Hc) as Hlt.
  unfold Start. simpl. rewrite Htok. simpl. split; [done |].
  exists c, (length (<[c:=true]> chans)). split; [done |]. split; [done |].
  rewrite length_insert. split; [lia |]. split.
  - rewrite lookup_app_l by (by rewrite length_insert).
    by apply list_lookup_insert_eq.
  - rewrite lookup_app_r by (by rewrite length_insert).
    by rewrite length_insert, Nat.sub_diag.
Qed.

(** X21: on a running adapter, [Connect] with a successful [AuthTest]
    returns a connection with an exit channel of its own: new, open, and not
    the adapter's; the channels that existed are left as they were. *)
Theorem Connect_makes_own_channel chans p auth :
  running_ok (p, chans) →
  p_running p = true →
  ∃ conn chans',
    Connect (inl auth) chans p = Some (chans', inl conn) ∧
    conn_auth conn = auth ∧
    p_exit p ≠ Some (conn_exit conn) ∧
    chans !! conn_exit conn = None ∧
    chans' !! conn_exit conn = Some false ∧
    ∀ c, c < length chans → chans' !! c = chans !! c.
Proof.
  intros Hok Hrun. destruct (Hok Hrun) as (_ & [api Hapi] & c & Hexit & Hc).
  simpl in *. pose proof (lookup_lt_Some _ _ _ Hc) as Hlt.
  unfold Connect. rewrite Hrun, Hapi. simpl. do 2 eexists.
  split; [done |]. simpl. split; [done |]. split.
  { rewrite Hexit. intros [= ->]. lia. }
  split; [by apply lookup_ge_None_2 |]. split.
  - by rewrite lookup_app_r, Nat.sub_diag.
  - intros i Hi. by apply lookup_app_l.
Qed.

(** X22: after a [Stop], [Connect] fails with ["not running"]; it makes no
    channel and [AuthTest] is not consulted. *)
Theorem Stop_then_Connect answer chans p p' chans' :
  Stop chans p = Some (p', chans') →
  Connect answer chans' p' = Some (chans', inr "not running").
Proof.
  unfold Stop, Connect. destruct (p_running p) eqn:Erun; simpl.
  - destruct (close (p_exit p) chans); [| done]. by intros [= <- <-].
  - intros [= <- <-]. by rewrite Erun.
Qed.

Lemma host_call_keeps_handlers (c : call) (w w' : slackInput * list bool) :
  host_call c w = Some w' →
  (registry (p_cmds w.1) → registry (p_cmds w'.1)) ∧
  ∀ k cmd, p_cmds w.1 !! k = Some cmd → p_cmds w'.1 !! k = Some cmd.
Proof.
  destruct w as [p chans]. destruct c as [d t | answer | | answer | cmd0]; simpl.
  - intros [= <-]. unfold Init. by destruct (Nat.eqb _ _).
  - intros [= <-]. unfold Start.
    destruct (Nat.eqb _ _); [done |]. destruct (p_running p); [done |].
    by destruct answer.
  - unfold Stop. destruct (p_running p); simpl; [| by intros [= <-]].
    destruct (close _ _); [| done]. by intros [= <-].
  - destruct (Connect answer chans p) as [[chans' r]|]; [| done]. by intros [= <-].
  - intros [= <-]. simpl. split; [by constructor |].
    intros k cmd Hk. unfold Process.
    destruct (p_cmds p !! cmd_Name cmd0) eqn:E; simpl; [done |].
    rewrite lookup_insert_ne; [done |]. intros <-. congruence.
Qed.

(** X23: no call of the host removes or replaces a registered handler:
    what is registered under a name stays registered under it through every
    [Init], [Start], [Stop], [Connect] and later [Process], and the registry
    remains one built by [Process]. *)
Theorem host_calls_keep_handlers (cs : list call) (w w' : slackInput * list bool) :
  host_calls cs w = Some w' →
  (registry (p_cmds w.1) → registry (p_cmds w'.1)) ∧
  ∀ k cmd, p_cmds w.1 !! k = Some cmd → p_cmds w'.1 !! k = Some cmd.
Proof.
  revert w. induction cs as [|c cs IH]; intros w; simpl.
  - by intros [= <-].
  - destruct (host_call c w) as [w1|] eqn:E; [| done]. intros Hrest.
    destruct (host_call_keeps_handlers c w w1 E) as [Hr1 Hk1].
    destruct (IH w1 Hrest) as [Hr2 Hk2]. split; [auto |].
    intros k cmd Hk. by apply Hk2, Hk1.
Qed.

End Sessions.

Lemma Stop_twice_witness :
  p_running (st_input running_once) = true ∧
  ∃ w, Stop (st_chans running_once) (st_input running_once) = Some w ∧
       p_running w.1 = false ∧ w.2 = [true] ∧ Stop w.2 w.1 = Some w.
Proof.
  split; [reflexivity |]. eexists. split; [reflexivity |].
  split; [reflexivity |]. split; [reflexivity |].
  apply (Stop_twice (st_chans running_once) (st_input running_once)).
  reflexivity.
Defined.

Lemma Start_twice_witness :
  Start (inr "invalid_auth") (st_chans running_once) (st_input running_once)
  = {| st_input := st_input running_once; st_chans := st_chans running_once;
       st_err := None; st_run := None |}.
Proof.
  apply (Start_twice (inl bot) (inr "invalid_auth") [] configured bot).
  reflexivity.
Defined.

Lemma Init_then_Start_witness :
  st_err running_once = None ∧
  st_run running_once = Some bot ∧
  p_running (st_input running_once) = true ∧
  p_api (st_input running_once)
    = Some {| client_token := "xoxb-1"; client_debug := true |} ∧
  ∃ c, p_exit (st_input running_once) = Some c ∧
       @nil bool !! c = None ∧ st_chans running_once !! c = Some false.
Proof.
  apply (Init_then_Start true "xoxb-1" new_slackInput configured bot []).
  - reflexivity.
  - reflexivity.
Defined.

Lemma restart_makes_new_channel_witness :
  st_run (Start (inl at_bot) [true] stopped_once) = Some at_bot ∧
  ∃ c c',
    p_exit (st_input running_once) = Some c ∧
    p_exit (st_input (Start (inl at_bot) [true] stopped_once)) = Some c' ∧
    c ≠ c' ∧
    st_chans (Start (inl at_bot) [true] stopped_once) !! c = Some true ∧
    st_chans (Start (inl at_bot) [true] stopped_once) !! c' = Some false.
Proof.
  apply (restart_makes_new_channel (st_chans running_once)
           (st_input running_once) stopped_once [true] at_bot).
  - intros _. split; [discriminate |]. split; [by eexists |].
    exists 0. by split.
  - reflexivity.
  - reflexivity.
Defined.

Lemma Connect_makes_own_channel_witness :
  ∃ conn chans',
    Connect (inl at_bot) (st_chans running_once) (st_input running_once)
      = Some (chans', inl conn) ∧
    conn_auth conn = at_bot ∧
    p_exit (st_input running_once) ≠ Some (conn_exit conn) ∧
    st_chans running_once !! conn_exit conn = None ∧
    chans' !! conn_exit conn = Some false ∧
    ∀ c, c < length (st_chans running_once) →
         chans' !! c = st_chans running_once !! c.
Proof.
  apply (Connect_makes_own_channel (st_chans running_once)
           (st_input running_once) at_bot).
  - intros _. split; [discriminate |]. split; [by eexists |].
    exists 0. by split.
  - reflexivity.
Defined.

Lemma Stop_then_Connect_witness :
  Connect (inl bot) [true] stopped_once = Some ([true], inr "not running").
Proof.
  apply (Stop_then_Connect (inl bot) (st_chans running_once)
           (st_input running_once) stopped_once [true]).
  reflexivity.
Defined.

Lemma host_calls_keep_handlers_witness :
  ∃ w',
    host_calls [CallStart (inl bot); CallProcess deploy_failing; CallStop;
                CallProcess unnamed]
      (registered_once, []) = Some w' ∧
    (registry (p_cmds registered_once) → registry (p_cmds w'.1)) ∧
    ∀ k cmd, p_cmds registered_once !! k = Some cmd →
             p_cmds w'.1 !! k = Some cmd.
Proof.
  eexists. split; [reflexivity |].
  apply (host_calls_keep_handlers
           [CallStart (inl bot); CallProcess deploy_failing; CallStop;
            CallProcess unnamed] (registered_once, [])).
  reflexivity.
Defined.
